(** * IceQuiverAll: the [ice_quiver.py all] orchestrator

    A shallow embedding of
    [pbtools/pbtranscript/ice/IceQuiverAll.py]: the configuration object,
    its command-line formatter [cmd_str] and the two-stage [run] sequence.

    The collaborators the module imports ([IceQuiver],
    [IceQuiverPostprocess], the SGE options object and the HQ/LQ options
    object) live in other modules; they are taken as parameters: a record
    of operations acting on an abstract outside world.  Every call to a
    collaborator may return or raise, and may change the world either
    way.  The calls the orchestrator makes are logged, in order, in a
    trace that is part of the interpreter state.

    The root directory and the two manifest paths are Python strings, on
    which [str.format] is the identity; the report and summary paths are
    strings or [None].  The serializers of the option objects return
    strings, and [use_sge] is a boolean attribute of the SGE options,
    read from the world at the moment [run] evaluates it. *)

From Stdlib Require Import String Ascii List Bool Arith Lia.
Import ListNotations.

Local Open Scope string_scope.

(** ** Python strings *)

(** [s.startswith(p)]. *)
Fixpoint starts_with (p s : string) : bool :=
  match p with
  | EmptyString => true
  | String a p' =>
      match s with
      | EmptyString => false
      | String b s' => Ascii.eqb a b && starts_with p' s'
      end
  end.

(** Number of positions of [s] at which [p] occurs. *)
Fixpoint occurrences (p s : string) : nat :=
  (if starts_with p s then 1 else 0) +
  match s with
  | EmptyString => 0
  | String _ s' => occurrences p s'
  end.

(** [p in s]: [p] is a substring of [s]. *)
Definition contains (p s : string) : Prop :=
  exists a b, s = a ++ p ++ b.

(** The character [c] occurs in [s]. *)
Fixpoint has_char (c : ascii) (s : string) : bool :=
  match s with
  | EmptyString => false
  | String a s' => Ascii.eqb c a || has_char c s'
  end.

(** ** The configuration object *)

Section Orchestrator.

(** Exceptions, the outside world (file system, cluster, the state of
    the collaborators and of the option objects), and references to the
    four kinds of collaborator objects. *)
Context {exn W SgeOpts IpqOpts IceQuiver IceQuiverPostprocess : Type}.

(** The attributes [__init__] stores on [self]. *)
Record IceQuiverAll : Type := mkIceQuiverAll {
  root_dir : string;
  bas_fofn : string;
  fasta_fofn : string;
  report_fn : option string;
  summary_fn : option string;
  sge_opts : SgeOpts;
  ipq_opts : IpqOpts
}.

(** A call either raises or returns. *)
Definition result (A : Type) : Type := (exn + A)%type.

(** What the orchestrator consumes from its collaborators.  None of
    them is handed [self], so they act on the world only. *)
Record Collaborators : Type := mkCollaborators {
  SgeOpts_cmd_str : SgeOpts -> bool -> bool -> W -> result string * W;
  SgeOpts_use_sge : SgeOpts -> W -> bool;
  IpqOpts_cmd_str : IpqOpts -> W -> result string * W;
  IceQuiver_init :
    string -> string -> string -> SgeOpts -> W -> result IceQuiver * W;
  IceQuiver_validate_inputs : IceQuiver -> W -> result unit * W;
  IceQuiver_run : IceQuiver -> W -> result unit * W;
  IceQuiverPostprocess_init :
    string -> bool -> bool -> IpqOpts -> W ->
    result IceQuiverPostprocess * W;
  IceQuiverPostprocess_run : IceQuiverPostprocess -> W -> result unit * W
}.

(** One entry of the trace: the call, its arguments and its outcome. *)
Inductive event : Type :=
| Ev_SgeOpts_cmd_str
    (o : SgeOpts) (show_blasr_nproc show_quiver_nproc : bool)
    (r : result string)
| Ev_IpqOpts_cmd_str (o : IpqOpts) (r : result string)
| Ev_IceQuiver_init
    (root bas fasta : string) (sge : SgeOpts) (r : result IceQuiver)
| Ev_IceQuiver_validate_inputs (q : IceQuiver) (r : result unit)
| Ev_IceQuiver_run (q : IceQuiver) (r : result unit)
| Ev_IceQuiverPostprocess_init
    (root : string) (use_sge quit_if_not_done : bool) (ipq : IpqOpts)
    (r : result IceQuiverPostprocess)
| Ev_IceQuiverPostprocess_run
    (p : IceQuiverPostprocess) (r : result unit).

(** Interpreter state: the object, the world, the calls made so far. *)
Record state : Type := mkState {
  self : IceQuiverAll;
  world : W;
  trace : list event
}.

(** State and exceptions; the state survives a raise. *)
Definition M (A : Type) : Type := state -> result A * state.

Definition ret {A : Type} (a : A) : M A := fun st => (inr a, st).

Definition bind {A B : Type} (m : M A) (k : A -> M B) : M B :=
  fun st =>
    match m st with
    | (inr a, st') => k a st'
    | (inl e, st') => (inl e, st')
    end.

(** Read [self]. *)
Definition get_self : M IceQuiverAll := fun st => (inr (self st), st).

(** Read an attribute of an object of the world. *)
Definition read_world {A : Type} (f : W -> A) : M A :=
  fun st => (inr (f (world st)), st).

(** Call a collaborator: the world moves, the call is logged. *)
Definition call_out {A : Type}
    (log : result A -> event) (f : W -> result A * W) : M A :=
  fun st =>
    let (r, w') := f (world st) in
    (r, {| self := self st; world := w'; trace := trace st ++ [log r] |}).

Notation "x <- m ;; k" := (bind m (fun x => k))
  (at level 61, m at next level, right associativity).
Notation "m ;;; k" := (bind m (fun _ => k))
  (at level 61, right associativity).

Variable env : Collaborators.

(** [prog], the class attribute. *)
Definition prog : string := "ice_quiver.py all ".

(** [__init__]: [prog_name] is rebound locally and dropped. *)
Definition __init__
    (root_dir0 bas_fofn0 fasta_fofn0 : string)
    (sge_opts0 : SgeOpts) (ipq_opts0 : IpqOpts)
    (report_fn0 summary_fn0 prog_name : option string) : IceQuiverAll :=
  let prog_name :=
    match prog_name with Some p => p | None => "IceQuiverAll" end in
  {| root_dir := root_dir0;
     bas_fofn := bas_fofn0;
     fasta_fofn := fasta_fofn0;
     report_fn := report_fn0;
     summary_fn := summary_fn0;
     sge_opts := sge_opts0;
     ipq_opts := ipq_opts0 |}.

(** [_cmd_str]: [cmd] is built left to right with [+] and [+=]. *)
Definition _cmd_str
    (root_dir0 bas_fofn0 fasta_fofn0 : string)
    (sge_opts0 : SgeOpts) (ipq_opts0 : IpqOpts)
    (report_fn0 summary_fn0 : option string) : M string :=
  let cmd :=
    ((prog ++ (root_dir0 ++ " "))
       ++ ("--bas_fofn=" ++ bas_fofn0 ++ " "))
      ++ ("--fasta_fofn=" ++ fasta_fofn0 ++ " ") in
  let cmd :=
    match report_fn0 with
    | Some f => cmd ++ ("--report=" ++ f ++ " ")
    | None => cmd
    end in
  let cmd :=
    match summary_fn0 with
    | Some f => cmd ++ ("--summary=" ++ f ++ " ")
    | None => cmd
    end in
  s <- call_out (Ev_SgeOpts_cmd_str sge_opts0 true true)
                (SgeOpts_cmd_str env sge_opts0 true true) ;;
  let cmd := cmd ++ s in
  s' <- call_out (Ev_IpqOpts_cmd_str ipq_opts0)
                 (IpqOpts_cmd_str env ipq_opts0) ;;
  let cmd := cmd ++ s' in
  ret cmd.

(** [cmd_str]. *)
Definition cmd_str : M string :=
  this <- get_self ;;
  _cmd_str (root_dir this) (bas_fofn this) (fasta_fofn this)
           (sge_opts this) (ipq_opts this)
           (report_fn this) (summary_fn this).

(** [run]. *)
Definition run : M unit :=
  this <- get_self ;;
  iceq <- call_out
            (Ev_IceQuiver_init (root_dir this) (bas_fofn this)
                               (fasta_fofn this) (sge_opts this))
            (IceQuiver_init env (root_dir this) (bas_fofn this)
                            (fasta_fofn this) (sge_opts this)) ;;
  call_out (Ev_IceQuiver_validate_inputs iceq)
           (IceQuiver_validate_inputs env iceq) ;;;
  call_out (Ev_IceQuiver_run iceq) (IceQuiver_run env iceq) ;;;
  this <- get_self ;;
  use_sge <- read_world (SgeOpts_use_sge env (sge_opts this)) ;;
  icepq <- call_out
             (Ev_IceQuiverPostprocess_init (root_dir this) use_sge false
                                           (ipq_opts this))
             (IceQuiverPostprocess_init env (root_dir this) use_sge false
                                        (ipq_opts this)) ;;
  call_out (Ev_IceQuiverPostprocess_run icepq)
           (IceQuiverPostprocess_run env icepq).

End Orchestrator.

Arguments IceQuiverAll : clear implicits.
Arguments result : clear implicits.
Arguments Collaborators : clear implicits.
Arguments event : clear implicits.
Arguments state : clear implicits.
Arguments M : clear implicits.

(** ** The command line, part by part *)

(** A flag with its value and the blank that ends it. *)
Definition flag (name value : string) : string := name ++ value ++ " ".

(** A flag that is present only when its value is not [None]. *)
Definition opt_flag (name : string) (value : option string) : string :=
  match value with
  | Some v => flag name v
  | None => ""
  end.

(** The parts of the command line of a configuration, in order, given
    what the two option objects serialize to. *)
Definition cmd_parts {SgeOpts IpqOpts : Type}
    (c : IceQuiverAll SgeOpts IpqOpts) (sge ipq : string) : list string :=
  [ prog;
    root_dir c ++ " ";
    flag "--bas_fofn=" (bas_fofn c);
    flag "--fasta_fofn=" (fasta_fofn c);
    opt_flag "--report=" (report_fn c);
    opt_flag "--summary=" (summary_fn c);
    sge;
    ipq ].

(** ** Reading a trace *)

(** Every entry satisfying [Q] has an entry satisfying [P] before it. *)
Definition preceded_by {A : Type} (P Q : A -> Prop) (t : list A) : Prop :=
  forall i y, nth_error t i = Some y -> Q y ->
  exists j x, j < i /\ nth_error t j = Some x /\ P x.

Section Events.

Context {exn SgeOpts IpqOpts IceQuiver IceQuiverPostprocess : Type}.

Let event := event exn SgeOpts IpqOpts IceQuiver IceQuiverPostprocess.

(** The exception an entry ended with, if it raised. *)
Definition raised (ev : event) : option exn :=
  match ev with
  | Ev_SgeOpts_cmd_str _ _ _ (inl e)
  | Ev_IpqOpts_cmd_str _ (inl e)
  | Ev_IceQuiver_init _ _ _ _ (inl e)
  | Ev_IceQuiver_validate_inputs _ (inl e)
  | Ev_IceQuiver_run _ (inl e)
  | Ev_IceQuiverPostprocess_init _ _ _ _ (inl e)
  | Ev_IceQuiverPostprocess_run _ (inl e) => Some e
  | _ => None
  end.

(** Stage 1: validation or execution of the polishing collaborator. *)
Definition is_stage1 (ev : event) : bool :=
  match ev with
  | Ev_IceQuiver_validate_inputs _ _ | Ev_IceQuiver_run _ _ => true
  | _ => false
  end.

(** Stage 2: construction or execution of the post-processing
    collaborator. *)
Definition is_stage2 (ev : event) : bool :=
  match ev with
  | Ev_IceQuiverPostprocess_init _ _ _ _ _
  | Ev_IceQuiverPostprocess_run _ _ => true
  | _ => false
  end.

(** A call to a serializer of one of the option objects. *)
Definition is_serialization (ev : event) : bool :=
  match ev with
  | Ev_SgeOpts_cmd_str _ _ _ _ | Ev_IpqOpts_cmd_str _ _ => true
  | _ => false
  end.

(** Every call to the [run] of a polishing object comes after a call
    to its [validate_inputs] that returned. *)
Definition validated_before_run (t : list event) : Prop :=
  forall i q r,
    nth_error t i = Some (Ev_IceQuiver_run q r) ->
    exists j,
      j < i /\ nth_error t j = Some (Ev_IceQuiver_validate_inputs q (inr tt)).

(** If a stage 1 call raised, no stage 2 call was made. *)
Definition no_stage2_after_failure (t : list event) : Prop :=
  forall ev e,
    In ev t -> is_stage1 ev = true -> raised ev = Some e ->
    forall ev', In ev' t -> is_stage2 ev' = false.

(** Every stage 2 call comes after a polishing [run] that returned. *)
Definition stage2_after_stage1 (t : list event) : Prop :=
  preceded_by (fun x => exists q, x = Ev_IceQuiver_run q (inr tt))
              (fun y => is_stage2 y = true) t.

(** Failures pass through: a call that raises is the last call made
    and its exception is the outcome; an outcome that is an exception
    is the one the last call raised. *)
Definition passes_failures_through {A : Type}
    (r : result exn A) (t : list event) : Prop :=
  (forall i ev e,
     nth_error t i = Some ev -> raised ev = Some e ->
     r = inl e /\ S i = length t) /\
  (forall e,
     r = inl e ->
     exists ev, nth_error t (pred (length t)) = Some ev /\
                raised ev = Some e).

End Events.

(** ** A scripted world

    A stand-in for the collaborators, used to run the model: the world is
    a script saying what each call answers, and a journal of the work
    done so far. *)

Record script : Type := mkScript {
  sge_answer : string + string;
  ipq_answer : string + string;
  sge_enabled : bool;
  quiver_init_fails : option string;
  validate_fails : option string;
  polish_fails : option string;
  post_init_fails : option string;
  post_fails : option string;
  journal : list string
}.

Definition note (what : string) (w : script) : script :=
  {| sge_answer := sge_answer w;
     ipq_answer := ipq_answer w;
     sge_enabled := sge_enabled w;
     quiver_init_fails := quiver_init_fails w;
     validate_fails := validate_fails w;
     polish_fails := polish_fails w;
     post_init_fails := post_init_fails w;
     post_fails := post_fails w;
     journal := (journal w ++ [what])%list |}.

Definition answer {A : Type} (fails : option string) (a : A) (what : string)
    (w : script) : (string + A) * script :=
  match fails with
  | Some msg => (inl msg, w)
  | None => (inr a, note what w)
  end.

(** The polishing object remembers its manifests, the post-processing
    object its two flags. *)
Definition scripted :
    Collaborators string script unit unit
                  (string * string * string) (string * bool * bool) :=
  {| SgeOpts_cmd_str := fun _ _ _ w => (sge_answer w, w);
     SgeOpts_use_sge := fun _ w => sge_enabled w;
     IpqOpts_cmd_str := fun _ w => (ipq_answer w, w);
     IceQuiver_init := fun root bas fasta _ w =>
       answer (quiver_init_fails w) (root, bas, fasta) "IceQuiver" w;
     IceQuiver_validate_inputs := fun _ w =>
       answer (validate_fails w) tt "validate_inputs" w;
     IceQuiver_run := fun _ w => answer (polish_fails w) tt "polish" w;
     IceQuiverPostprocess_init := fun root use_sge quit _ w =>
       answer (post_init_fails w) (root, use_sge, quit)
              "IceQuiverPostprocess" w;
     IceQuiverPostprocess_run := fun _ w =>
       answer (post_fails w) tt "postprocess" w |}.

(** A world in which every call succeeds. *)
Definition calm (sge ipq : string) : script :=
  {| sge_answer := inr sge;
     ipq_answer := inr ipq;
     sge_enabled := true;
     quiver_init_fails := None;
     validate_fails := None;
     polish_fails := None;
     post_init_fails := None;
     post_fails := None;
     journal := [] |}.

(** The configuration of the example of the specification. *)
Definition example_cfg : IceQuiverAll unit unit :=
  __init__ "/out" "bas.fofn" "fa.fofn" tt tt None None None.

Definition start {SgeOpts IpqOpts : Type}
    (c : IceQuiverAll SgeOpts IpqOpts) (w : script) :
    state string script SgeOpts IpqOpts
          (string * string * string) (string * bool * bool) :=
  {| self := c; world := w; trace := [] |}.

(** A world in which validation, or polishing, raises. *)
Definition stage1_failing (validation polishing : option string) : script :=
  {| sge_answer := inr "";
     ipq_answer := inr "";
     sge_enabled := false;
     quiver_init_fails := None;
     validate_fails := validation;
     polish_fails := polishing;
     post_init_fails := None;
     post_fails := None;
     journal := [] |}.

(** What the option objects are made to answer in the sample runs. *)
Definition sample_sge : string := "--blasr_nproc=24 --quiver_nproc=8 ".
Definition sample_ipq : string := "--hq_quiver_min_accuracy=0.99 ".

(** Neither flag occurs in [s]. *)
Definition flag_free (s : string) : Prop :=
  ~ contains "--report=" s /\ ~ contains "--summary=" s.

(** A root directory that reads like a report flag. *)
Definition flag_like_root_cfg : IceQuiverAll unit unit :=
  __init__ "--report=x" "bas.fofn" "fa.fofn" tt tt None None None.

(** A report path that carries a second report flag. *)
Definition flag_like_report_cfg : IceQuiverAll unit unit :=
  __init__ "/out" "bas.fofn" "fa.fofn" tt tt
           (Some "a --report=b") (Some "s.txt") None.

(** Both output paths configured. *)
Definition full_cfg : IceQuiverAll unit unit :=
  __init__ "/out" "bas.fofn" "fa.fofn" tt tt
           (Some "report.csv") (Some "summary.txt") (Some "ice_quiver.py").

(** Both output paths configured, and empty. *)
Definition empty_paths_cfg : IceQuiverAll unit unit :=
  __init__ "/out" "bas.fofn" "fa.fofn" tt tt (Some "") (Some "") None.

(** ** Argument registration

    [add_ice_quiver_all_arguments] hands the parser to five helpers of
    [PBTranscriptOptions], one after the other, each time rebinding
    [parser] to what the helper returned.  The helpers are parameters;
    what they do to the parser object lives in the world. *)

Section Registration.

Context {exn W Parser : Type}.

(** The helpers, with the keyword arguments this module passes. *)
Record Helpers : Type := mkHelpers {
  add_cluster_root_dir_as_positional_argument :
    Parser -> W -> result exn Parser * W;
  add_fofn_arguments :
    Parser -> bool -> bool -> W -> result exn Parser * W;
  add_cluster_summary_report_arguments :
    Parser -> W -> result exn Parser * W;
  add_ice_post_quiver_hq_lq_arguments :
    Parser -> W -> result exn Parser * W;
  add_sge_arguments :
    Parser -> bool -> bool -> W -> result exn Parser * W
}.

(** One helper call: the parser handed in, the keyword arguments, the
    outcome. *)
Inductive reg_event : Type :=
| Reg_root_dir (parser : Parser) (r : result exn Parser)
| Reg_fofn (parser : Parser) (bas_fofn fasta_fofn : bool)
           (r : result exn Parser)
| Reg_summary_report (parser : Parser) (r : result exn Parser)
| Reg_hq_lq (parser : Parser) (r : result exn Parser)
| Reg_sge (parser : Parser) (quiver_nproc blasr_nproc : bool)
          (r : result exn Parser).

(** The parser a call was handed, and its outcome. *)
Definition reg_given (ev : reg_event) : Parser :=
  match ev with
  | Reg_root_dir p _ | Reg_fofn p _ _ _ | Reg_summary_report p _
  | Reg_hq_lq p _ | Reg_sge p _ _ _ => p
  end.

Definition reg_outcome (ev : reg_event) : result exn Parser :=
  match ev with
  | Reg_root_dir _ r | Reg_fofn _ _ _ r | Reg_summary_report _ r
  | Reg_hq_lq _ r | Reg_sge _ _ _ r => r
  end.

(** The world and the helper calls made so far. *)
Record reg_state : Type := mkRegState {
  reg_world : W;
  reg_trace : list reg_event
}.

Definition R (A : Type) : Type := reg_state -> result exn A * reg_state.

Definition reg_ret {A : Type} (a : A) : R A := fun st => (inr a, st).

Definition reg_bind {A B : Type} (m : R A) (k : A -> R B) : R B :=
  fun st =>
    match m st with
    | (inr a, st') => k a st'
    | (inl e, st') => (inl e, st')
    end.

(** Call a helper: the world moves, the call is logged. *)
Definition reg_call
    (log : result exn Parser -> reg_event)
    (f : W -> result exn Parser * W) : R Parser :=
  fun st =>
    let (r, w') := f (reg_world st) in
    (r, {| reg_world := w'; reg_trace := reg_trace st ++ [log r] |}).

Notation "x <- m ;; k" := (reg_bind m (fun x => k))
  (at level 61, m at next level, right associativity).

Variable helpers : Helpers.

(** [add_ice_quiver_all_arguments]. *)
Definition add_ice_quiver_all_arguments (parser : Parser) : R Parser :=
  parser <- reg_call (Reg_root_dir parser)
              (add_cluster_root_dir_as_positional_argument helpers parser) ;;
  parser <- reg_call (Reg_fofn parser true true)
              (add_fofn_arguments helpers parser true true) ;;
  parser <- reg_call (Reg_summary_report parser)
              (add_cluster_summary_report_arguments helpers parser) ;;
  parser <- reg_call (Reg_hq_lq parser)
              (add_ice_post_quiver_hq_lq_arguments helpers parser) ;;
  parser <- reg_call (Reg_sge parser true true)
              (add_sge_arguments helpers parser true true) ;;
  reg_ret parser.

(** Each call of a trace is handed what the call before it returned,
    starting from [p]; [chain_end] is what the last one returned. *)
Fixpoint chained (p : Parser) (t : list reg_event) : Prop :=
  match t with
  | [] => True
  | ev :: t' =>
      reg_given ev = p /\
      match reg_outcome ev with
      | inr p' => chained p' t'
      | inl _ => t' = []
      end
  end.

End Registration.

Arguments Helpers : clear implicits.
Arguments reg_event : clear implicits.
Arguments reg_state : clear implicits.
Arguments R : clear implicits.

(** A helper that registers its options on the parser it is given and
    returns that parser; as [argparse] does, it raises on an option that
    is registered already.  The world is the list of registered options,
    the parser a handle. *)
Definition registering (options : list string) (parser : nat)
    (w : list string) : result string nat * list string :=
  if existsb (fun o => existsb (String.eqb o) w) options
  then (inl "conflicting option string", w)
  else (inr parser, (w ++ options)%list).

Definition argparse_helpers : Helpers string (list string) nat :=
  {| add_cluster_root_dir_as_positional_argument :=
       registering ["root_dir"];
     add_fofn_arguments := fun p bas fasta =>
       registering ((if bas then ["--bas_fofn"] else []) ++
                    (if fasta then ["--fasta_fofn"] else []))%list p;
     add_cluster_summary_report_arguments :=
       registering ["--report"; "--summary"];
     add_ice_post_quiver_hq_lq_arguments :=
       registering ["--hq_quiver_min_accuracy"];
     add_sge_arguments := fun p quiver blasr =>
       registering (["--use_sge"] ++
                    (if blasr then ["--blasr_nproc"] else []) ++
                    (if quiver then ["--quiver_nproc"] else []))%list p |}.

(** A helper that, whenever it returns, returns the parser it was
    given. *)
Definition returns_given {exn W Parser : Type}
    (f : Parser -> W -> result exn Parser * W) : Prop :=
  forall p w p', fst (f p w) = inr p' -> p' = p.

(** A helper call that raises is the last one and its exception is the
    outcome; an outcome that is an exception is the one the last call
    raised. *)
Definition reg_passes_failures_through {exn Parser : Type}
    (r : result exn Parser) (t : list (reg_event exn Parser)) : Prop :=
  (forall i ev e,
     nth_error t i = Some ev -> reg_outcome ev = inl e ->
     r = inl e /\ S i = length t) /\
  (forall e,
     r = inl e ->
     exists ev, nth_error t (pred (length t)) = Some ev /\
                reg_outcome ev = inl e).

(** A parser on which nothing is registered yet, and one on which
    [--report] is taken. *)
Definition fresh_parser : reg_state string (list string) nat :=
  {| reg_world := []; reg_trace := [] |}.

Definition report_taken : reg_state string (list string) nat :=
  {| reg_world := ["--report"]; reg_trace := [] |}.

(** ** Paths without blanks *)

Definition blank_free (s : string) : Prop := has_char " " s = false.

Definition blank_free_opt (o : option string) : Prop :=
  match o with
  | Some s => blank_free s
  | None => True
  end.

(** No path of the configuration contains a blank. *)
Definition blank_free_cfg {SgeOpts IpqOpts : Type}
    (c : IceQuiverAll SgeOpts IpqOpts) : Prop :=
  blank_free (root_dir c) /\ blank_free (bas_fofn c) /\
  blank_free (fasta_fofn c) /\
  blank_free_opt (report_fn c) /\ blank_free_opt (summary_fn c).

(** Two configurations that differ at most in the two output paths. *)
Definition same_but_outputs {SgeOpts IpqOpts : Type}
    (c c' : IceQuiverAll SgeOpts IpqOpts) : Prop :=
  root_dir c = root_dir c' /\ bas_fofn c = bas_fofn c' /\
  fasta_fofn c = fasta_fofn c' /\
  sge_opts c = sge_opts c' /\ ipq_opts c = ipq_opts c'.

(** * Properties *)

(** ** Strings *)

Lemma append_assoc (a b c : string) : (a ++ b) ++ c = a ++ (b ++ c).
Proof.
  induction a as [|x a IH]; simpl; [reflexivity | now rewrite IH].
Qed.

Lemma starts_with_append (p b : string) : starts_with p (p ++ b) = true.
Proof.
  induction p as [|x p IH]; simpl; [reflexivity |].
  now rewrite Ascii.eqb_refl, IH.
Qed.

Lemma starts_with_split (p s : string) :
  starts_with p s = true -> exists b, s = p ++ b.
Proof.
  revert s; induction p as [|x p IH]; intros s H; simpl in *.
  - now exists s.
  - destruct s as [|y s]; [discriminate |].
    apply andb_true_iff in H as [Hxy Hp].
    apply Ascii.eqb_eq in Hxy; subst y.
    destruct (IH s Hp) as [b ->]. now exists b.
Qed.

Lemma contains_here (p b : string) : contains p (p ++ b).
Proof. now exists "", b. Qed.

Lemma contains_append_l (p a s : string) : contains p s -> contains p (a ++ s).
Proof.
  intros [x [y ->]]. exists (a ++ x), y. now rewrite append_assoc.
Qed.

Lemma occurrences_pos_contains (p s : string) :
  occurrences p s <> 0 -> contains p s.
Proof.
  induction s as [|c s IH]; simpl; intros H.
  - destruct (starts_with p "") eqn:E; [| lia].
    destruct (starts_with_split _ _ E) as [b ->]. apply contains_here.
  - destruct (starts_with p (String c s)) eqn:E.
    + destruct (starts_with_split _ _ E) as [b ->]. apply contains_here.
    + destruct (IH H) as [x [y ->]]. now exists (String c x), y.
Qed.

Lemma contains_occurrences_pos (p s : string) :
  contains p s -> occurrences p s <> 0.
Proof.
  intros [a [b ->]]. induction a as [|c a IH].
  - simpl ("" ++ _). destruct (p ++ b) eqn:E; simpl;
      rewrite <- E, starts_with_append; lia.
  - simpl. lia.
Qed.

Lemma not_contains_iff (p s : string) : ~ contains p s <-> occurrences p s = 0.
Proof.
  split.
  - intros H. destruct (occurrences p s) eqn:E; [reflexivity |].
    exfalso; apply H, occurrences_pos_contains. lia.
  - intros H C. now apply contains_occurrences_pos in C.
Qed.

(** A character foreign to the pattern cuts every match short. *)
Lemma starts_with_cut (c : ascii) (p a b : string) :
  has_char c p = false ->
  starts_with p (a ++ String c b) = starts_with p a.
Proof.
  revert p; induction a as [|y a IH]; intros [|x p] H; simpl in *;
    try reflexivity.
  - apply orb_false_iff in H as [H _].
    rewrite Ascii.eqb_sym, H. reflexivity.
  - apply orb_false_iff in H as [_ H]. now rewrite IH.
Qed.

(** Hence matches on either side of it are counted apart. *)
Lemma occurrences_cut (c : ascii) (p a b : string) :
  has_char c p = false ->
  occurrences p (a ++ String c b) = occurrences p a + occurrences p b.
Proof.
  intros H. induction a as [|y a IH].
  - change ("" ++ String c b) with (String c b). simpl.
    rewrite <- (starts_with_cut c p "" b H). simpl. lia.
  - change (String y a ++ String c b) with (String y (a ++ String c b)).
    cbn [occurrences].
    change (String y (a ++ String c b)) with (String y a ++ String c b).
    rewrite (starts_with_cut c p (String y a) b H), IH. lia.
Qed.

(** ** The two methods, call by call *)

Section Unfolding.

Context {exn W SgeOpts IpqOpts IceQuiver IceQuiverPostprocess : Type}.

Variable env :
  Collaborators exn W SgeOpts IpqOpts IceQuiver IceQuiverPostprocess.

Let state := state exn W SgeOpts IpqOpts IceQuiver IceQuiverPostprocess.

Lemma cmd_str_unfold (st : state) :
  cmd_str env st =
  let c := self st in
  match SgeOpts_cmd_str env (sge_opts c) true true (world st) with
  | (inl e, w1) =>
      (inl e,
       mkState c w1
         (trace st ++ [Ev_SgeOpts_cmd_str (sge_opts c) true true (inl e)]))
  | (inr sge, w1) =>
      match IpqOpts_cmd_str env (ipq_opts c) w1 with
      | (inl e, w2) =>
          (inl e,
           mkState c w2
             (trace st ++
              [Ev_SgeOpts_cmd_str (sge_opts c) true true (inr sge);
               Ev_IpqOpts_cmd_str (ipq_opts c) (inl e)]))
      | (inr ipq, w2) =>
          (inr (String.concat "" (cmd_parts c sge ipq)),
           mkState c w2
             (trace st ++
              [Ev_SgeOpts_cmd_str (sge_opts c) true true (inr sge);
               Ev_IpqOpts_cmd_str (ipq_opts c) (inr ipq)]))
      end
  end%list.
Proof.
  unfold cmd_str, _cmd_str, bind, get_self, call_out, ret. cbn zeta.
  cbn [self world trace].
  destruct (SgeOpts_cmd_str env _ true true (world st)) as [[e|sge] w1];
    [reflexivity |].
  cbn [self world trace].
  destruct (IpqOpts_cmd_str env _ w1) as [[e|ipq] w2];
    rewrite <- app_assoc; [reflexivity |].
  unfold cmd_parts, opt_flag, flag.
  destruct (report_fn (self st)), (summary_fn (self st));
    cbn [String.concat]; rewrite ?append_assoc; reflexivity.
Qed.

Lemma run_unfold (st : state) :
  run env st =
  let c := self st in
  let new := Ev_IceQuiver_init (root_dir c) (bas_fofn c) (fasta_fofn c)
                               (sge_opts c) in
  match IceQuiver_init env (root_dir c) (bas_fofn c) (fasta_fofn c)
                       (sge_opts c) (world st) with
  | (inl e, w1) => (inl e, mkState c w1 (trace st ++ [new (inl e)]))
  | (inr q, w1) =>
      match IceQuiver_validate_inputs env q w1 with
      | (inl e, w2) =>
          (inl e,
           mkState c w2
             (trace st ++
              [new (inr q); Ev_IceQuiver_validate_inputs q (inl e)]))
      | (inr _, w2) =>
          match IceQuiver_run env q w2 with
          | (inl e, w3) =>
              (inl e,
               mkState c w3
                 (trace st ++
                  [new (inr q);
                   Ev_IceQuiver_validate_inputs q (inr tt);
                   Ev_IceQuiver_run q (inl e)]))
          | (inr _, w3) =>
              let use_sge := SgeOpts_use_sge env (sge_opts c) w3 in
              let new' :=
                Ev_IceQuiverPostprocess_init (root_dir c) use_sge false
                                             (ipq_opts c) in
              match IceQuiverPostprocess_init env (root_dir c) use_sge
                      false (ipq_opts c) w3 with
              | (inl e, w4) =>
                  (inl e,
                   mkState c w4
                     (trace st ++
                      [new (inr q);
                       Ev_IceQuiver_validate_inputs q (inr tt);
                       Ev_IceQuiver_run q (inr tt);
                       new' (inl e)]))
              | (inr p, w4) =>
                  let (r, w5) := IceQuiverPostprocess_run env p w4 in
                  (r,
                   mkState c w5
                     (trace st ++
                      [new (inr q);
                       Ev_IceQuiver_validate_inputs q (inr tt);
                       Ev_IceQuiver_run q (inr tt);
                       new' (inr p);
                       Ev_IceQuiverPostprocess_run p r]))
              end
          end
      end
  end%list.
Proof.
  unfold run, bind, get_self, call_out, read_world. cbn zeta.
  cbn [self world trace].
  destruct (IceQuiver_init env _ _ _ _ (world st)) as [[e|q] w1];
    [reflexivity |].
  cbn [self world trace].
  destruct (IceQuiver_validate_inputs env q w1) as [[e|[]] w2];
    rewrite <- ?app_assoc; [reflexivity |].
  cbn [self world trace].
  destruct (IceQuiver_run env q w2) as [[e|[]] w3];
    rewrite <- ?app_assoc; [reflexivity |].
  cbn [self world trace].
  destruct (IceQuiverPostprocess_init env _ _ false _ w3) as [[e|p] w4];
    rewrite <- ?app_assoc; [reflexivity |].
  cbn [self world trace].
  destruct (IceQuiverPostprocess_run env p w4) as [r w5].
  rewrite <- ?app_assoc. reflexivity.
Qed.

End Unfolding.

(** ** The run sequence *)

(** Case analysis on the index of an entry of a trace of known length. *)
Ltac at_index H i :=
  cbn in H;
  lazymatch type of H with
  | nth_error nil _ = Some _ => destruct i; discriminate H
  | nth_error (_ :: _) _ = Some _ =>
      destruct i as [|i];
      [ cbn in H; inversion H; subst; clear H | at_index H i ]
  end.

(** Case analysis on the membership of an entry in a trace of known
    length. *)
Ltac among H :=
  cbn in H;
  lazymatch type of H with
  | False => contradiction
  | _ \/ _ => destruct H as [H|H]; [subst | among H]
  end.

(** The outcomes of [run], one goal per outcome. *)
Ltac run_outcomes env st H :=
  rewrite run_unfold in H; cbv zeta in H;
  destruct (IceQuiver_init env _ _ _ _ (world st)) as [[?e|?q] ?w];
  [| destruct (IceQuiver_validate_inputs env _ _) as [[?e|[]] ?w];
     [| destruct (IceQuiver_run env _ _) as [[?e|[]] ?w];
        [| destruct (IceQuiverPostprocess_init env _ _ false _ _)
             as [[?e|?p] ?w];
           [| destruct (IceQuiverPostprocess_run env _ _) as [[?e|[]] ?w] ]]]];
  inversion H; subst; clear H; cbn [self world trace].

Section Run.

Context {exn W SgeOpts IpqOpts IceQuiver IceQuiverPostprocess : Type}.

Variable env :
  Collaborators exn W SgeOpts IpqOpts IceQuiver IceQuiverPostprocess.

Let state := state exn W SgeOpts IpqOpts IceQuiver IceQuiverPostprocess.

(** C1.  Whatever the configuration and whatever the collaborators do,
    in the calls [run] makes: the polishing object's [run] is only
    called after its [validate_inputs] returned; if [validate_inputs]
    or the polishing [run] raised, the post-processing object is
    neither constructed nor run; and every post-processing call comes
    after a polishing [run] that returned. *)
Theorem run_stage_order (st st' : state) (r : result exn unit) :
  run env st = (r, st') ->
  exists t,
    trace st' = (trace st ++ t)%list /\
    validated_before_run t /\
    no_stage2_after_failure t /\
    stage2_after_stage1 t.
Proof.
  intros H. run_outcomes env st H;
    (eexists; split; [reflexivity |]); repeat split;
    first
      [ intros i ? ? H; at_index H i;
        (exists 1; split; [lia | reflexivity])
      | intros ev ? Hin H1 Hr ev' Hin'; among Hin; among Hin';
        cbn in *; try discriminate; reflexivity
      | intros i y H Hy; at_index H i; try discriminate Hy;
        (exists 2; eexists; split; [lia | split; [reflexivity | eauto]]) ].
Qed.

(** C2.  Whatever the world looks like, once the polishing object has
    been built, validated and run without raising, [run] calls the
    constructor of the post-processing object with the root directory of
    the configuration, the [use_sge] attribute read from the SGE options
    at that moment, [quit_if_not_done=False] and the HQ/LQ options; and it
    calls the [run] of the object the constructor returns, whose outcome
    is the outcome of [run]. *)
Theorem run_postprocess_always (st : state) (q : IceQuiver) (w1 w2 w3 : W) :
  let c := self st in
  IceQuiver_init env (root_dir c) (bas_fofn c) (fasta_fofn c) (sge_opts c)
                 (world st) = (inr q, w1) ->
  IceQuiver_validate_inputs env q w1 = (inr tt, w2) ->
  IceQuiver_run env q w2 = (inr tt, w3) ->
  let use_sge := SgeOpts_use_sge env (sge_opts c) w3 in
  let stage1 :=
    [Ev_IceQuiver_init (root_dir c) (bas_fofn c) (fasta_fofn c)
                       (sge_opts c) (inr q);
     Ev_IceQuiver_validate_inputs q (inr tt);
     Ev_IceQuiver_run q (inr tt)] in
  exists made w4,
    IceQuiverPostprocess_init env (root_dir c) use_sge false (ipq_opts c) w3
      = (made, w4) /\
    match made with
    | inr p =>
        exists r w5,
          IceQuiverPostprocess_run env p w4 = (r, w5) /\
          run env st =
          (r,
           mkState c w5
             (trace st ++ stage1 ++
              [Ev_IceQuiverPostprocess_init (root_dir c) use_sge false
                                            (ipq_opts c) (inr p);
               Ev_IceQuiverPostprocess_run p r]))
    | inl e =>
        run env st =
        (inl e,
         mkState c w4
           (trace st ++ stage1 ++
            [Ev_IceQuiverPostprocess_init (root_dir c) use_sge false
                                          (ipq_opts c) (inl e)]))
    end%list.
Proof.
  intros c H1 H2 H3 use_sge stage1.
  destruct (IceQuiverPostprocess_init env (root_dir c) use_sge false
              (ipq_opts c) w3) as [made w4] eqn:H4.
  exists made, w4. split; [reflexivity |].
  rewrite run_unfold. cbv zeta. fold c. rewrite H1, H2, H3.
  fold use_sge. rewrite H4.
  destruct made as [e|p]; [reflexivity |].
  destruct (IceQuiverPostprocess_run env p w4) as [r w5].
  exists r, w5. split; reflexivity.
Qed.

(** C6.  Whatever the collaborators do, a call that raises is the last
    call [run] makes and [run] ends with that very exception; and when
    [run] ends with an exception, it is the one its last call raised. *)
Theorem run_passes_failures_through (st st' : state) (r : result exn unit) :
  run env st = (r, st') ->
  exists t,
    trace st' = (trace st ++ t)%list /\ passes_failures_through r t.
Proof.
  intros H. run_outcomes env st H;
    (eexists; split; [reflexivity |]); split;
    first
      [ intros i ev x H Hr; at_index H i; cbn in Hr; try discriminate Hr;
        inversion Hr; subst; split; reflexivity
      | intros x Hx; try discriminate Hx; inversion Hx; subst;
        eexists; split; reflexivity ].
Qed.

(** C7.  Neither [cmd_str] nor [run] changes the object: after either,
    whatever the collaborators did, every attribute holds what
    [__init__] stored. *)
Theorem configuration_never_mutated
    (root bas fasta : string) (sge : SgeOpts) (ipq : IpqOpts)
    (report summary name : option string)
    (w : W) (t : list (event exn SgeOpts IpqOpts IceQuiver IceQuiverPostprocess)) :
  let c := __init__ root bas fasta sge ipq report summary name in
  let st := mkState c w t in
  (self (snd (cmd_str env st)) = c /\ self (snd (run env st)) = c) /\
  (root_dir c = root /\ bas_fofn c = bas /\ fasta_fofn c = fasta /\
   report_fn c = report /\ summary_fn c = summary /\
   sge_opts c = sge /\ ipq_opts c = ipq).
Proof.
  intros c st. split; [split |].
  - rewrite cmd_str_unfold. cbv zeta.
    destruct (SgeOpts_cmd_str env _ true true _) as [[e|s1] w1];
      [reflexivity |].
    destruct (IpqOpts_cmd_str env _ w1) as [[e|s2] w2]; reflexivity.
  - destruct (run env st) as [r st'] eqn:H.
    run_outcomes env st H; reflexivity.
  - repeat split.
Qed.

End Run.

(** ** The command line *)

Lemma occurrences_word (p x rest : string) :
  has_char " " p = false ->
  occurrences p ((x ++ " ") ++ rest) = occurrences p x + occurrences p rest.
Proof.
  intros H. rewrite append_assoc. apply (occurrences_cut " " p x rest H).
Qed.

(** Counting a flag: walk over the literal text, cut at the blanks. *)
Ltac count_flag :=
  unfold cmd_parts, opt_flag, flag, prog;
  repeat match goal with
         | |- context [match ?o with Some _ => _ | None => _ end] =>
             destruct o
         end;
  simpl;
  repeat (rewrite occurrences_word by reflexivity; simpl);
  lia.

Lemma occurrences_report {SgeOpts IpqOpts : Type}
    (c : IceQuiverAll SgeOpts IpqOpts) (sge ipq : string) :
  occurrences "--report=" (String.concat "" (cmd_parts c sge ipq)) =
  occurrences "--report=" (root_dir c) +
  occurrences "--report=" (bas_fofn c) +
  occurrences "--report=" (fasta_fofn c) +
  match report_fn c with
  | Some f => 1 + occurrences "--report=" f
  | None => 0
  end +
  match summary_fn c with
  | Some f => occurrences "--report=" f
  | None => 0
  end +
  occurrences "--report=" (sge ++ ipq).
Proof. count_flag. Qed.

Lemma occurrences_summary {SgeOpts IpqOpts : Type}
    (c : IceQuiverAll SgeOpts IpqOpts) (sge ipq : string) :
  occurrences "--summary=" (String.concat "" (cmd_parts c sge ipq)) =
  occurrences "--summary=" (root_dir c) +
  occurrences "--summary=" (bas_fofn c) +
  occurrences "--summary=" (fasta_fofn c) +
  match report_fn c with
  | Some f => occurrences "--summary=" f
  | None => 0
  end +
  match summary_fn c with
  | Some f => 1 + occurrences "--summary=" f
  | None => 0
  end +
  occurrences "--summary=" (sge ++ ipq).
Proof. count_flag. Qed.

Section CmdStr.

Context {exn W SgeOpts IpqOpts IceQuiver IceQuiverPostprocess : Type}.

Variable env :
  Collaborators exn W SgeOpts IpqOpts IceQuiver IceQuiverPostprocess.

Let state := state exn W SgeOpts IpqOpts IceQuiver IceQuiverPostprocess.

(** When both serializers return, so does [cmd_str]. *)
Lemma cmd_str_returns (st : state) (sge ipq : string) (w1 w2 : W) :
  SgeOpts_cmd_str env (sge_opts (self st)) true true (world st)
    = (inr sge, w1) ->
  IpqOpts_cmd_str env (ipq_opts (self st)) w1 = (inr ipq, w2) ->
  cmd_str env st =
  (inr (String.concat "" (cmd_parts (self st) sge ipq)),
   mkState (self st) w2
     (trace st ++
      [Ev_SgeOpts_cmd_str (sge_opts (self st)) true true (inr sge);
       Ev_IpqOpts_cmd_str (ipq_opts (self st)) (inr ipq)])%list).
Proof.
  intros H1 H2. rewrite cmd_str_unfold. cbv zeta. now rewrite H1, H2.
Qed.

Lemma flag_free_counts (s : string) :
  flag_free s ->
  occurrences "--report=" s = 0 /\ occurrences "--summary=" s = 0.
Proof.
  intros [H1 H2]. split; now apply not_contains_iff.
Qed.

(** The head of the command line: everything before the optional flags. *)
Lemma cmd_parts_head
    (c : IceQuiverAll SgeOpts IpqOpts) (sge ipq : string) :
  String.concat "" (cmd_parts c sge ipq) =
  (prog ++ root_dir c ++ " " ++ "--bas_fofn=" ++ bas_fofn c ++ " "
        ++ "--fasta_fofn=" ++ fasta_fofn c ++ " ")
    ++ opt_flag "--report=" (report_fn c)
    ++ opt_flag "--summary=" (summary_fn c)
    ++ sge ++ ipq.
Proof.
  unfold cmd_parts, flag. cbn [String.concat].
  rewrite !append_assoc. reflexivity.
Qed.

(** C3, amended.  When both serializers return, [cmd_str] returns a
    string [s] such that, provided neither ["--report="] nor
    ["--summary="] occurs in the root directory, in the two manifest
    paths or in the serializations of the option objects taken together:
    if [report_fn] and [summary_fn] are both [None], [s] contains neither
    flag; if both are strings in which neither flag occurs, each flag
    occurs exactly once in [s], followed by the configured path and a
    blank. *)
Theorem cmd_str_optional_flags
    (st : state) (sge ipq : string) (w1 w2 : W) :
  let c := self st in
  SgeOpts_cmd_str env (sge_opts c) true true (world st) = (inr sge, w1) ->
  IpqOpts_cmd_str env (ipq_opts c) w1 = (inr ipq, w2) ->
  flag_free (root_dir c) ->
  flag_free (bas_fofn c) ->
  flag_free (fasta_fofn c) ->
  flag_free (sge ++ ipq) ->
  exists s,
    fst (cmd_str env st) = inr s /\
    (report_fn c = None -> summary_fn c = None ->
     ~ contains "--report=" s /\ ~ contains "--summary=" s) /\
    (forall r m,
       report_fn c = Some r -> summary_fn c = Some m ->
       flag_free r -> flag_free m ->
       occurrences "--report=" s = 1 /\
       occurrences "--summary=" s = 1 /\
       contains ("--report=" ++ r ++ " ") s /\
       contains ("--summary=" ++ m ++ " ") s).
Proof.
  intros c H1 H2 Hroot Hbas Hfasta Hopts.
  rewrite (cmd_str_returns st sge ipq w1 w2 H1 H2). fold c.
  eexists; split; [reflexivity |].
  apply flag_free_counts in Hroot as [Hr1 Hr2].
  apply flag_free_counts in Hbas as [Hb1 Hb2].
  apply flag_free_counts in Hfasta as [Hf1 Hf2].
  apply flag_free_counts in Hopts as [Ho1 Ho2].
  split.
  - intros Hr Hs. split; apply not_contains_iff.
    + rewrite occurrences_report, Hr, Hs. lia.
    + rewrite occurrences_summary, Hr, Hs. lia.
  - intros r m Hr Hs Hfr Hfm.
    apply flag_free_counts in Hfr as [Hx1 Hx2].
    apply flag_free_counts in Hfm as [Hy1 Hy2].
    split; [| split; [| split]].
    + rewrite occurrences_report, Hr, Hs. lia.
    + rewrite occurrences_summary, Hr, Hs. lia.
    + rewrite cmd_parts_head, Hr. cbn [opt_flag]. unfold flag.
      apply contains_append_l, contains_here.
    + rewrite cmd_parts_head, Hs. cbn [opt_flag]. unfold flag.
      do 2 apply contains_append_l. apply contains_here.
Qed.

(** C4, amended.  When both serializers return, [cmd_str] returns a
    string that starts with the program name, the root directory and the
    two manifest flags with their paths, each followed by a blank.  For
    the configuration [/out], [bas.fofn], [fa.fofn] without report and
    summary paths it starts with
    ["ice_quiver.py all /out --bas_fofn=bas.fofn --fasta_fofn=fa.fofn "],
    and it contains neither ["--report="] nor ["--summary="] provided
    the serializations of the option objects, taken together, contain
    neither. *)
Theorem cmd_str_starts_with
    (st : state) (sge ipq : string) (w1 w2 : W) :
  let c := self st in
  SgeOpts_cmd_str env (sge_opts c) true true (world st) = (inr sge, w1) ->
  IpqOpts_cmd_str env (ipq_opts c) w1 = (inr ipq, w2) ->
  exists s,
    fst (cmd_str env st) = inr s /\
    starts_with
      (prog ++ root_dir c ++ " " ++ "--bas_fofn=" ++ bas_fofn c ++ " "
            ++ "--fasta_fofn=" ++ fasta_fofn c ++ " ") s = true /\
    (root_dir c = "/out" -> bas_fofn c = "bas.fofn" ->
     fasta_fofn c = "fa.fofn" ->
     report_fn c = None -> summary_fn c = None ->
     starts_with
       "ice_quiver.py all /out --bas_fofn=bas.fofn --fasta_fofn=fa.fofn "
       s = true /\
     (flag_free (sge ++ ipq) ->
      ~ contains "--report=" s /\ ~ contains "--summary=" s)).
Proof.
  intros c H1 H2.
  rewrite (cmd_str_returns st sge ipq w1 w2 H1 H2). fold c.
  eexists; split; [reflexivity |]. split.
  - rewrite cmd_parts_head. apply starts_with_append.
  - intros Hroot Hbas Hfasta Hr Hs. split.
    + rewrite cmd_parts_head, Hroot, Hbas, Hfasta.
      apply starts_with_append.
    + intros Hopts. apply flag_free_counts in Hopts as [Ho1 Ho2].
      split; apply not_contains_iff.
      * rewrite occurrences_report, Hroot, Hbas, Hfasta, Hr, Hs, Ho1.
        reflexivity.
      * rewrite occurrences_summary, Hroot, Hbas, Hfasta, Hr, Hs, Ho2.
        reflexivity.
Qed.

(** C5.  [cmd_str] asks the SGE options for their serialization with
    [show_blasr_nproc=True] and [show_quiver_nproc=True], then the HQ/LQ
    options for theirs, and returns the concatenation of: the program
    name, the root directory, the two manifest flags, the report flag if
    any, the summary flag if any, the SGE serialization, the HQ/LQ
    serialization. *)
Theorem cmd_str_fixed_order (st : state) (sge ipq : string) (w1 w2 : W) :
  let c := self st in
  SgeOpts_cmd_str env (sge_opts c) true true (world st) = (inr sge, w1) ->
  IpqOpts_cmd_str env (ipq_opts c) w1 = (inr ipq, w2) ->
  cmd_str env st =
  (inr (String.concat ""
          [ "ice_quiver.py all ";
            root_dir c ++ " ";
            "--bas_fofn=" ++ bas_fofn c ++ " ";
            "--fasta_fofn=" ++ fasta_fofn c ++ " ";
            match report_fn c with
            | Some f => "--report=" ++ f ++ " "
            | None => ""
            end;
            match summary_fn c with
            | Some f => "--summary=" ++ f ++ " "
            | None => ""
            end;
            sge;
            ipq ]),
   mkState c w2
     (trace st ++
      [Ev_SgeOpts_cmd_str (sge_opts c) true true (inr sge);
       Ev_IpqOpts_cmd_str (ipq_opts c) (inr ipq)])%list).
Proof.
  intros c H1 H2. exact (cmd_str_returns st sge ipq w1 w2 H1 H2).
Qed.

Lemma opt_flag_nonempty (name : string) (value : option string) :
  opt_flag name value <> "" <-> value <> None.
Proof.
  destruct value as [v|]; cbn [opt_flag]; unfold flag.
  - split; [discriminate |]. intros _.
    destruct name; [destruct v |]; discriminate.
  - split; intros H; now elim H.
Qed.

(** C10.  When both serializers return, the string [cmd_str] returns is
    the head, a report part, a summary part and the two serializations;
    the report part is non-empty exactly when [report_fn] is not [None],
    and is then the flag, the path and a blank, and likewise for the
    summary part.  In particular an empty [report_fn] gives a string
    containing ["--report= "], an empty [summary_fn] one containing
    ["--summary= "]. *)
Theorem cmd_str_flag_iff_not_none
    (st : state) (sge ipq : string) (w1 w2 : W) :
  let c := self st in
  SgeOpts_cmd_str env (sge_opts c) true true (world st) = (inr sge, w1) ->
  IpqOpts_cmd_str env (ipq_opts c) w1 = (inr ipq, w2) ->
  exists s report_part summary_part,
    fst (cmd_str env st) = inr s /\
    s = (prog ++ root_dir c ++ " " ++ "--bas_fofn=" ++ bas_fofn c ++ " "
              ++ "--fasta_fofn=" ++ fasta_fofn c ++ " ")
          ++ report_part ++ summary_part ++ sge ++ ipq /\
    (report_part <> "" <-> report_fn c <> None) /\
    (forall f, report_fn c = Some f -> report_part = "--report=" ++ f ++ " ")
    /\
    (summary_part <> "" <-> summary_fn c <> None) /\
    (forall f,
       summary_fn c = Some f -> summary_part = "--summary=" ++ f ++ " ") /\
    (report_fn c = Some "" -> contains "--report= " s) /\
    (summary_fn c = Some "" -> contains "--summary= " s).
Proof.
  intros c H1 H2.
  rewrite (cmd_str_returns st sge ipq w1 w2 H1 H2). fold c.
  exists (String.concat "" (cmd_parts c sge ipq)),
         (opt_flag "--report=" (report_fn c)),
         (opt_flag "--summary=" (summary_fn c)).
  split; [reflexivity |]. split; [apply cmd_parts_head |].
  split; [apply opt_flag_nonempty |].
  split; [intros f ->; reflexivity |].
  split; [apply opt_flag_nonempty |].
  split; [intros f ->; reflexivity |].
  split.
  - intros Hr. rewrite cmd_parts_head, Hr.
    apply contains_append_l, (contains_here "--report= ").
  - intros Hs. rewrite cmd_parts_head, Hs.
    do 2 apply contains_append_l. apply (contains_here "--summary= ").
Qed.

(** C9.  Two objects built from the same arguments but for [prog_name]
    are the same object; so [cmd_str] and [run] do the same on them, from
    any world; and what [cmd_str] returns starts with
    ["ice_quiver.py all "]. *)
Theorem prog_name_ignored
    (root bas fasta : string) (sge : SgeOpts) (ipq : IpqOpts)
    (report summary name name' : option string)
    (w : W)
    (t : list (event exn SgeOpts IpqOpts IceQuiver IceQuiverPostprocess)) :
  let c := __init__ root bas fasta sge ipq report summary name in
  let c' := __init__ root bas fasta sge ipq report summary name' in
  c = c' /\
  cmd_str env (mkState c w t) = cmd_str env (mkState c' w t) /\
  run env (mkState c w t) = run env (mkState c' w t) /\
  (forall s,
     fst (cmd_str env (mkState c w t)) = inr s ->
     starts_with "ice_quiver.py all " s = true).
Proof.
  intros c c'. repeat split.
  intros s. rewrite cmd_str_unfold. cbv zeta.
  destruct (SgeOpts_cmd_str env _ true true _) as [[e|s1] w1];
    [discriminate |].
  destruct (IpqOpts_cmd_str env _ w1) as [[e|s2] w2]; [discriminate |].
  cbn [fst]. intros H; injection H as <-.
  unfold cmd_parts. cbn [String.concat].
  apply (starts_with_append prog).
Qed.

End CmdStr.

(** ** The formatter is a function of the configuration *)

Section Purity.

Context {exn W W' SgeOpts IpqOpts IceQuiver IceQuiverPostprocess : Type}.

Variable env :
  Collaborators exn W SgeOpts IpqOpts IceQuiver IceQuiverPostprocess.

Variable env' :
  Collaborators exn W' SgeOpts IpqOpts IceQuiver IceQuiverPostprocess.

(** C8.  [cmd_str] is a function of the configuration and of what the
    two serializers answer: on equal configurations, in any two worlds
    (and with any two sets of collaborators) where the serializers answer
    alike, it has the same outcome.  It raises only what a serializer
    raises, and returns whenever both return.  It leaves the object as it
    is, makes no call but to the serializers, and leaves the world as
    they leave it. *)
Theorem cmd_str_pure :
  (forall (st : state exn W SgeOpts IpqOpts IceQuiver IceQuiverPostprocess)
          (st' : state exn W' SgeOpts IpqOpts IceQuiver IceQuiverPostprocess),
     let c := self st in
     let a := SgeOpts_cmd_str env (sge_opts c) true true (world st) in
     let a' := SgeOpts_cmd_str env' (sge_opts c) true true (world st') in
     self st' = c ->
     fst a = fst a' ->
     (forall sge,
        fst a = inr sge ->
        fst (IpqOpts_cmd_str env (ipq_opts c) (snd a)) =
        fst (IpqOpts_cmd_str env' (ipq_opts c) (snd a'))) ->
     fst (cmd_str env st) = fst (cmd_str env' st')) /\
  (forall (st : state exn W SgeOpts IpqOpts IceQuiver IceQuiverPostprocess),
     let c := self st in
     let a := SgeOpts_cmd_str env (sge_opts c) true true (world st) in
     let b := IpqOpts_cmd_str env (ipq_opts c) (snd a) in
     (forall e,
        fst (cmd_str env st) = inl e ->
        fst a = inl e \/ ((exists sge, fst a = inr sge) /\ fst b = inl e)) /\
     (forall sge ipq,
        fst a = inr sge -> fst b = inr ipq ->
        exists s, fst (cmd_str env st) = inr s) /\
     self (snd (cmd_str env st)) = c /\
     (exists t,
        trace (snd (cmd_str env st)) = (trace st ++ t)%list /\
        Forall (fun ev => is_serialization ev = true) t) /\
     world (snd (cmd_str env st)) =
     match fst a with
     | inl _ => snd a
     | inr _ => snd b
     end).
Proof.
  split.
  - intros st st' c a a' Hc Ha Hb. subst a a'.
    rewrite !cmd_str_unfold. cbv zeta. rewrite Hc. fold c.
    destruct (SgeOpts_cmd_str env (sge_opts c) true true (world st))
      as [[e|sge] w1];
      destruct (SgeOpts_cmd_str env' (sge_opts c) true true (world st'))
        as [[e'|sge'] w1'];
      cbn [fst snd] in *; try discriminate Ha.
    + exact Ha.
    + injection Ha as <-. specialize (Hb sge eq_refl).
      destruct (IpqOpts_cmd_str env (ipq_opts c) w1) as [[x|ipq] w2];
        destruct (IpqOpts_cmd_str env' (ipq_opts c) w1') as [[x'|ipq'] w2'];
        cbn [fst snd] in *; try discriminate Hb.
      * exact Hb.
      * now injection Hb as <-.
  - intros st c a b. subst a b.
    rewrite cmd_str_unfold. cbv zeta. fold c.
    destruct (SgeOpts_cmd_str env (sge_opts c) true true (world st))
      as [[e|sge] w1]; cbn [fst snd].
    + repeat split.
      * intros x H. now left.
      * discriminate.
      * eexists; split; [reflexivity |]. repeat constructor.
    + destruct (IpqOpts_cmd_str env (ipq_opts c) w1) as [[e|ipq] w2];
        cbn [fst snd]; repeat split.
      * intros x H. right. split; [now exists sge | exact H].
      * discriminate.
      * eexists; split; [reflexivity |]. repeat constructor.
      * discriminate.
      * intros; eexists; reflexivity.
      * eexists; split; [reflexivity |]. repeat constructor.
Qed.

End Purity.

(** ** Sample runs *)

Lemma flag_free_check (s : string) :
  occurrences "--report=" s = 0 -> occurrences "--summary=" s = 0 ->
  flag_free s.
Proof.
  intros H1 H2. split; now apply not_contains_iff.
Qed.

(** C1 on a run in which every call returns: five calls, in order. *)
Lemma run_stage_order_calm :
  exists t,
    trace (snd (run scripted (start example_cfg (calm "" "")))) =
    ([] ++ t)%list /\
    validated_before_run t /\
    no_stage2_after_failure t /\
    stage2_after_stage1 t.
Proof.
  apply (run_stage_order scripted (start example_cfg (calm "" ""))
           (snd (run scripted (start example_cfg (calm "" ""))))
           (fst (run scripted (start example_cfg (calm "" ""))))).
  reflexivity.
Defined.

(** C2 on the same run: the post-processing object is built from
    [/out], [use_sge=True], [quit_if_not_done=False], and run. *)
Lemma run_postprocess_always_calm :
  exists st',
    run scripted (start example_cfg (calm "" "")) = (inr tt, st') /\
    nth_error (trace st') 3 =
    Some (Ev_IceQuiverPostprocess_init "/out" true false tt
                                       (inr ("/out", true, false))) /\
    nth_error (trace st') 4 =
    Some (Ev_IceQuiverPostprocess_run ("/out", true, false) (inr tt)).
Proof.
  pose proof (run_postprocess_always scripted
                (start example_cfg (calm "" ""))
                ("/out", "bas.fofn", "fa.fofn")
                (note "IceQuiver" (calm "" ""))
                (note "validate_inputs" (note "IceQuiver" (calm "" "")))
                (note "polish"
                   (note "validate_inputs" (note "IceQuiver" (calm "" ""))))
                eq_refl eq_refl eq_refl) as H.
  cbv zeta in H. destruct H as (made & w4 & Hmade & H).
  cbv in Hmade. injection Hmade as <- <-.
  destruct H as (r & w5 & Hr & H).
  cbv in Hr. injection Hr as <- <-.
  eexists. split; [exact H |]. split; reflexivity.
Defined.

(** C6 on a run in which polishing raises. *)
Lemma run_passes_failures_through_polish :
  exists t,
    trace (snd (run scripted
                  (start example_cfg
                         (stage1_failing None (Some "quiver failed"))))) =
    ([] ++ t)%list /\
    passes_failures_through (A := unit) (inl "quiver failed") t.
Proof.
  apply (run_passes_failures_through scripted
           (start example_cfg (stage1_failing None (Some "quiver failed")))
           (snd (run scripted
                   (start example_cfg
                          (stage1_failing None (Some "quiver failed")))))).
  reflexivity.
Defined.

(** C3 on a run with both paths configured. *)
Lemma cmd_str_optional_flags_full :
  exists s,
    fst (cmd_str scripted (start full_cfg (calm sample_sge sample_ipq))) =
    inr s /\
    occurrences "--report=" s = 1 /\
    occurrences "--summary=" s = 1 /\
    contains "--report=report.csv " s /\
    contains "--summary=summary.txt " s.
Proof.
  destruct (cmd_str_optional_flags scripted
              (start full_cfg (calm sample_sge sample_ipq))
              sample_sge sample_ipq
              (calm sample_sge sample_ipq) (calm sample_sge sample_ipq)
              eq_refl eq_refl
              (flag_free_check "/out" eq_refl eq_refl)
              (flag_free_check "bas.fofn" eq_refl eq_refl)
              (flag_free_check "fa.fofn" eq_refl eq_refl)
              (flag_free_check (sample_sge ++ sample_ipq) eq_refl eq_refl))
    as (s & Hs & _ & H).
  exists s. split; [exact Hs |].
  exact (H "report.csv" "summary.txt" eq_refl eq_refl
           (flag_free_check "report.csv" eq_refl eq_refl)
           (flag_free_check "summary.txt" eq_refl eq_refl)).
Defined.

(** The claim of C3 as stated fails: with no report path configured, a
    root directory that reads like a flag puts ["--report="] in the
    command line; and a report path that carries the flag text makes it
    occur twice. *)
Lemma cmd_str_flag_text_in_paths :
  (report_fn flag_like_root_cfg = None /\
   summary_fn flag_like_root_cfg = None /\
   fst (cmd_str scripted (start flag_like_root_cfg (calm "" ""))) =
   inr "ice_quiver.py all --report=x --bas_fofn=bas.fofn --fasta_fofn=fa.fofn "
   /\
   contains "--report="
     "ice_quiver.py all --report=x --bas_fofn=bas.fofn --fasta_fofn=fa.fofn ")
  /\
  (report_fn flag_like_report_cfg = Some "a --report=b" /\
   summary_fn flag_like_report_cfg = Some "s.txt" /\
   exists s,
     fst (cmd_str scripted (start flag_like_report_cfg (calm "" ""))) = inr s
     /\ occurrences "--report=" s = 2).
Proof.
  split.
  - repeat split. apply occurrences_pos_contains. discriminate.
  - repeat split. eexists. split; reflexivity.
Qed.

(** C4 on the configuration of the example. *)
Lemma cmd_str_starts_with_example :
  exists s,
    fst (cmd_str scripted (start example_cfg (calm sample_sge sample_ipq))) =
    inr s /\
    starts_with
      "ice_quiver.py all /out --bas_fofn=bas.fofn --fasta_fofn=fa.fofn "
      s = true /\
    ~ contains "--report=" s /\ ~ contains "--summary=" s.
Proof.
  destruct (cmd_str_starts_with scripted
              (start example_cfg (calm sample_sge sample_ipq))
              sample_sge sample_ipq
              (calm sample_sge sample_ipq) (calm sample_sge sample_ipq)
              eq_refl eq_refl)
    as (s & Hs & _ & H).
  exists s. split; [exact Hs |].
  destruct (H eq_refl eq_refl eq_refl eq_refl eq_refl) as [H1 H2].
  split; [exact H1 |].
  exact (H2 (flag_free_check (sample_sge ++ sample_ipq) eq_refl eq_refl)).
Defined.

(** The claim of C4 as stated fails: on the configuration of the
    example, if the SGE options serialize to a report flag, the command
    line contains ["--report="]. *)
Lemma cmd_str_flag_text_in_serialization :
  root_dir example_cfg = "/out" /\
  bas_fofn example_cfg = "bas.fofn" /\
  fasta_fofn example_cfg = "fa.fofn" /\
  report_fn example_cfg = None /\
  summary_fn example_cfg = None /\
  fst (cmd_str scripted (start example_cfg (calm "--report=r.csv " ""))) =
  inr "ice_quiver.py all /out --bas_fofn=bas.fofn --fasta_fofn=fa.fofn --report=r.csv "
  /\
  contains "--report="
    "ice_quiver.py all /out --bas_fofn=bas.fofn --fasta_fofn=fa.fofn --report=r.csv ".
Proof.
  repeat split. apply occurrences_pos_contains. discriminate.
Qed.

(** C5 on a run with both paths configured. *)
Lemma cmd_str_fixed_order_full :
  fst (cmd_str scripted (start full_cfg (calm sample_sge sample_ipq))) =
  inr "ice_quiver.py all /out --bas_fofn=bas.fofn --fasta_fofn=fa.fofn --report=report.csv --summary=summary.txt --blasr_nproc=24 --quiver_nproc=8 --hq_quiver_min_accuracy=0.99 ".
Proof.
  rewrite (cmd_str_fixed_order scripted
             (start full_cfg (calm sample_sge sample_ipq))
             sample_sge sample_ipq
             (calm sample_sge sample_ipq) (calm sample_sge sample_ipq)
             eq_refl eq_refl).
  reflexivity.
Defined.

(** C10 on a run with both paths empty. *)
Lemma cmd_str_flag_iff_not_none_empty :
  exists s,
    fst (cmd_str scripted (start empty_paths_cfg (calm "" ""))) = inr s /\
    contains "--report= " s /\ contains "--summary= " s.
Proof.
  destruct (cmd_str_flag_iff_not_none scripted
              (start empty_paths_cfg (calm "" "")) "" ""
              (calm "" "") (calm "" "") eq_refl eq_refl)
    as (s & R & S & Hs & _ & _ & _ & _ & _ & Hr & Hm).
  exists s. split; [exact Hs |].
  split; [exact (Hr eq_refl) | exact (Hm eq_refl)].
Defined.

(** * Further properties *)

(** ** More on the run sequence *)

Section RunMore.

Context {exn W SgeOpts IpqOpts IceQuiver IceQuiverPostprocess : Type}.

Variable env :
  Collaborators exn W SgeOpts IpqOpts IceQuiver IceQuiverPostprocess.

Let state := state exn W SgeOpts IpqOpts IceQuiver IceQuiverPostprocess.
Let event := event exn SgeOpts IpqOpts IceQuiver IceQuiverPostprocess.

(** [run] reads the three input paths and the two option objects, and
    the world; nothing else of the state. *)
Lemma run_depends_on (st st2 : state) :
  same_but_outputs (self st) (self st2) ->
  world st = world st2 ->
  exists t : list event,
    trace (snd (run env st)) = (trace st ++ t)%list /\
    trace (snd (run env st2)) = (trace st2 ++ t)%list /\
    fst (run env st) = fst (run env st2) /\
    world (snd (run env st)) = world (snd (run env st2)).
Proof.
  intros (Hroot & Hbas & Hfasta & Hsge & Hipq) Hw.
  rewrite !run_unfold. cbv zeta.
  rewrite <- Hroot, <- Hbas, <- Hfasta, <- Hsge, <- Hipq, <- Hw.
  destruct (IceQuiver_init env _ _ _ _ (world st)) as [[e|q] w1];
    [eexists; repeat split |].
  destruct (IceQuiver_validate_inputs env q w1) as [[e|[]] w2];
    [eexists; repeat split |].
  destruct (IceQuiver_run env q w2) as [[e|[]] w3];
    [eexists; repeat split |].
  destruct (IceQuiverPostprocess_init env _ _ false _ w3) as [[e|p] w4];
    [eexists; repeat split |].
  destruct (IceQuiverPostprocess_run env p w4) as [r w5].
  eexists; repeat split.
Qed.

(** X1.  [run] returns normally exactly when it made five calls that all
    returned: the polishing object built from the three input paths and
    the SGE options, validated, run; the post-processing object built and
    run. *)
Theorem run_returns_iff (st st' : state) (r : result exn unit) :
  run env st = (r, st') ->
  let c := self st in
  r = inr tt <->
  exists q use_sge p,
    trace st' =
    (trace st ++
     [Ev_IceQuiver_init (root_dir c) (bas_fofn c) (fasta_fofn c)
                        (sge_opts c) (inr q);
      Ev_IceQuiver_validate_inputs q (inr tt);
      Ev_IceQuiver_run q (inr tt);
      Ev_IceQuiverPostprocess_init (root_dir c) use_sge false (ipq_opts c)
                                   (inr p);
      Ev_IceQuiverPostprocess_run p (inr tt)])%list.
Proof.
  intros H c. subst c. run_outcomes env st H; split;
    try discriminate;
    try (intros (q' & u' & p' & H); apply app_inv_head in H;
         discriminate H);
    try reflexivity.
  intros _. eexists _, _, _. reflexivity.
Qed.

(** X2.  Whatever happens, the first call [run] makes is the
    construction of the polishing object from [root_dir], [bas_fofn],
    [fasta_fofn] and [sge_opts]; at most four calls follow; and [run]
    never asks an option object for its serialization. *)
Theorem run_first_call (st : state) :
  let c := self st in
  exists t,
    trace (snd (run env st)) =
    (trace st ++
     Ev_IceQuiver_init
       (root_dir c) (bas_fofn c) (fasta_fofn c) (sge_opts c)
       (fst (IceQuiver_init env (root_dir c) (bas_fofn c) (fasta_fofn c)
                            (sge_opts c) (world st))) :: t)%list /\
    length t <= 4 /\
    Forall (fun ev : event => is_serialization ev = false) t.
Proof.
  intros c. subst c. destruct (run env st) as [r st'] eqn:H.
  rewrite run_unfold in H. cbv zeta in H.
  destruct (IceQuiver_init env _ _ _ _ (world st)) as [[e|q] w1];
    [inversion H; subst; eexists; cbn; repeat split; [cbn; lia | constructor] |].
  destruct (IceQuiver_validate_inputs env q w1) as [[e|[]] w2];
    [inversion H; subst; eexists; cbn; repeat split;
     [cbn; lia | repeat constructor] |].
  destruct (IceQuiver_run env q w2) as [[e|[]] w3];
    [inversion H; subst; eexists; cbn; repeat split;
     [cbn; lia | repeat constructor] |].
  destruct (IceQuiverPostprocess_init env _ _ false _ w3) as [[e|p] w4];
    [inversion H; subst; eexists; cbn; repeat split;
     [cbn; lia | repeat constructor] |].
  destruct (IceQuiverPostprocess_run env p w4) as [r5 w5].
  inversion H; subst; eexists; cbn; repeat split;
    [cbn; lia | repeat constructor].
Qed.

(** X3.  [run] does not look at [report_fn] and [summary_fn]: on two
    objects that differ at most in these, from the same world, it makes
    the same calls, ends the same way and leaves the same world. *)
Theorem run_ignores_output_paths (st st2 : state) :
  same_but_outputs (self st) (self st2) ->
  world st = world st2 ->
  trace st = trace st2 ->
  fst (run env st) = fst (run env st2) /\
  world (snd (run env st)) = world (snd (run env st2)) /\
  trace (snd (run env st)) = trace (snd (run env st2)).
Proof.
  intros Hc Hw Ht.
  destruct (run_depends_on st st2 Hc Hw) as (t & H1 & H2 & Hr & Hw').
  repeat split; [exact Hr | exact Hw' |].
  now rewrite H1, H2, Ht.
Qed.

(** X7.  Asking for the command line first does not change what [run]
    does: if the two serializers, asked in the world at hand, leave it
    as it is, then after
    [cmd_str] (whether it returned or raised) [run] makes the calls it
    would have made, ends the same way and leaves the same world. *)
Theorem cmd_str_then_run (st : state) :
  let c := self st in
  snd (SgeOpts_cmd_str env (sge_opts c) true true (world st)) = world st ->
  snd (IpqOpts_cmd_str env (ipq_opts c) (world st)) = world st ->
  let st1 := snd (cmd_str env st) in
  exists asked made : list event,
    trace st1 = (trace st ++ asked)%list /\
    trace (snd (run env st)) = (trace st ++ made)%list /\
    trace (snd (run env st1)) = (trace st ++ asked ++ made)%list /\
    fst (run env st1) = fst (run env st) /\
    world (snd (run env st1)) = world (snd (run env st)).
Proof.
  intros c Hsge Hipq st1.
  assert (H1 : self st1 = self st /\ world st1 = world st /\
               exists asked, trace st1 = (trace st ++ asked)%list).
  { subst st1. rewrite cmd_str_unfold. cbv zeta. fold c.
    pose proof Hsge as Hs.
    destruct (SgeOpts_cmd_str env (sge_opts c) true true (world st))
      as [[e|sge] w1]; cbn [snd] in *; subst w1.
    - repeat split. eexists; reflexivity.
    - pose proof Hipq as Hi.
      destruct (IpqOpts_cmd_str env (ipq_opts c) (world st))
        as [[e|ipq] w2]; cbn [snd] in *; subst w2;
        (repeat split; eexists; reflexivity). }
  destruct H1 as (Hself & Hworld & asked & Hasked).
  destruct (run_depends_on st1 st) as (made & Ht1 & Ht & Hr & Hw).
  - rewrite Hself. repeat split.
  - exact Hworld.
  - exists asked, made. rewrite Ht1, Hasked, <- app_assoc.
    repeat split; assumption.
Qed.

End RunMore.

(** ** More on the command line *)

Lemma length_append (a b : string) :
  String.length (a ++ b) = String.length a + String.length b.
Proof.
  induction a as [|x a IH]; simpl; [reflexivity | now rewrite IH].
Qed.

Lemma append_inv_head (a x y : string) : a ++ x = a ++ y -> x = y.
Proof.
  induction a as [|c a IH]; simpl; intros H; [exact H |].
  injection H as H. now apply IH.
Qed.

Lemma append_inv_tail (a b t : string) : a ++ t = b ++ t -> a = b.
Proof.
  revert b; induction a as [|x a IH]; intros [|y b] H; simpl in H.
  - reflexivity.
  - apply (f_equal String.length) in H. simpl in H.
    rewrite length_append in H. lia.
  - apply (f_equal String.length) in H. simpl in H.
    rewrite length_append in H. lia.
  - injection H as -> H. f_equal. now apply IH.
Qed.

Lemma append_empty (a : string) : a ++ "" = a.
Proof.
  induction a as [|x a IH]; simpl; [reflexivity | now rewrite IH].
Qed.

(** Two blank-free words followed by a blank: the first blank tells
    where the word ends. *)
Lemma word_split (x y a b : string) :
  blank_free x -> blank_free y ->
  x ++ String " " a = y ++ String " " b -> x = y /\ a = b.
Proof.
  unfold blank_free.
  revert y; induction x as [|c x IH]; intros [|d y] Hx Hy H; simpl in *.
  - injection H as ->. now split.
  - injection H as <- _. simpl in Hy. discriminate Hy.
  - injection H as -> _. simpl in Hx. discriminate Hx.
  - injection H as -> H.
    apply orb_false_iff in Hx as [_ Hx]. apply orb_false_iff in Hy as [_ Hy].
    destruct (IH y Hx Hy H) as [-> ->]. now split.
Qed.

Lemma flag_split (name v v' rest rest' : string) :
  blank_free v -> blank_free v' ->
  flag name v ++ rest = flag name v' ++ rest' -> v = v' /\ rest = rest'.
Proof.
  unfold flag. intros Hv Hv' H. rewrite !append_assoc in H.
  apply append_inv_head in H. exact (word_split v v' rest rest' Hv Hv' H).
Qed.

Lemma flag_inj (name v v' : string) :
  blank_free v -> blank_free v' -> flag name v = flag name v' -> v = v'.
Proof.
  intros Hv Hv' H.
  rewrite <- (append_empty (flag name v)),
          <- (append_empty (flag name v')) in H.
  now destruct (flag_split name v v' "" "" Hv Hv' H).
Qed.

(** The two optional parts can be told apart and read back. *)
Lemma opt_flags_inj (r m r' m' : option string) :
  blank_free_opt r -> blank_free_opt m ->
  blank_free_opt r' -> blank_free_opt m' ->
  opt_flag "--report=" r ++ opt_flag "--summary=" m =
  opt_flag "--report=" r' ++ opt_flag "--summary=" m' ->
  r = r' /\ m = m'.
Proof.
  destruct r as [a|], r' as [a'|]; cbn [opt_flag blank_free_opt];
    intros Ha Hm Ha' Hm' H.
  - apply flag_split in H as [-> H]; [| assumption ..].
    destruct m as [b|], m' as [b'|]; cbn [opt_flag blank_free_opt] in *;
      try (unfold flag in H; simpl in H; discriminate H).
    + apply flag_inj in H as ->; [now split | assumption ..].
    + now split.
  - destruct m' as [b'|]; cbn [opt_flag] in H;
      unfold flag in H; simpl in H; discriminate H.
  - destruct m as [b|]; cbn [opt_flag] in H;
      unfold flag in H; simpl in H; discriminate H.
  - change ("" ++ opt_flag "--summary=" m) with (opt_flag "--summary=" m)
      in H.
    change ("" ++ opt_flag "--summary=" m') with (opt_flag "--summary=" m')
      in H.
    destruct m as [b|], m' as [b'|]; cbn [opt_flag blank_free_opt] in *;
      try (unfold flag in H; simpl in H; discriminate H).
    + apply flag_inj in H as ->; [now split | assumption ..].
    + now split.
Qed.

Section CmdStrMore.

Context {exn W SgeOpts IpqOpts IceQuiver IceQuiverPostprocess : Type}.

Variable env :
  Collaborators exn W SgeOpts IpqOpts IceQuiver IceQuiverPostprocess.

Let state := state exn W SgeOpts IpqOpts IceQuiver IceQuiverPostprocess.
Let event := event exn SgeOpts IpqOpts IceQuiver IceQuiverPostprocess.

(** X4.  [cmd_str] always asks the SGE options first, with both knobs
    shown; it asks the HQ/LQ options exactly when the SGE options
    answered, and in the world they left.  If the SGE options raise,
    that exception is the outcome and the HQ/LQ options are not asked. *)
Theorem cmd_str_asks_in_order (st : state) :
  let c := self st in
  let a := SgeOpts_cmd_str env (sge_opts c) true true (world st) in
  let b := IpqOpts_cmd_str env (ipq_opts c) (snd a) in
  exists t : list event,
    trace (snd (cmd_str env st)) =
    (trace st ++ Ev_SgeOpts_cmd_str (sge_opts c) true true (fst a) :: t)%list
    /\
    match fst a with
    | inl e => t = [] /\ fst (cmd_str env st) = inl e
    | inr _ => t = [Ev_IpqOpts_cmd_str (ipq_opts c) (fst b)]
    end.
Proof.
  intros c a b. subst a b. rewrite cmd_str_unfold. cbv zeta. fold c.
  destruct (SgeOpts_cmd_str env (sge_opts c) true true (world st))
    as [[e|sge] w1]; cbn [fst snd].
  - eexists. split; [reflexivity |]. now split.
  - destruct (IpqOpts_cmd_str env (ipq_opts c) w1) as [[e|ipq] w2];
      cbn [fst snd]; eexists; split; reflexivity.
Qed.

(** X5.  When no path contains a blank, the command line tells the
    paths: two objects whose option objects serialize alike and for which
    [cmd_str] returns the same string have the same root directory, the
    same manifests and the same report and summary paths ([None]
    included). *)
Theorem cmd_str_tells_paths
    (st st2 : state) (sge ipq : string) (w1 w2 w1' w2' : W) :
  let c := self st in
  let c2 := self st2 in
  SgeOpts_cmd_str env (sge_opts c) true true (world st) = (inr sge, w1) ->
  IpqOpts_cmd_str env (ipq_opts c) w1 = (inr ipq, w2) ->
  SgeOpts_cmd_str env (sge_opts c2) true true (world st2) = (inr sge, w1') ->
  IpqOpts_cmd_str env (ipq_opts c2) w1' = (inr ipq, w2') ->
  blank_free_cfg c -> blank_free_cfg c2 ->
  fst (cmd_str env st) = fst (cmd_str env st2) ->
  root_dir c = root_dir c2 /\
  bas_fofn c = bas_fofn c2 /\
  fasta_fofn c = fasta_fofn c2 /\
  report_fn c = report_fn c2 /\
  summary_fn c = summary_fn c2.
Proof.
  intros c c2 H1 H2 H1' H2'
         (Hroot & Hbas & Hfasta & Hrep & Hsum)
         (Hroot2 & Hbas2 & Hfasta2 & Hrep2 & Hsum2) H.
  rewrite (cmd_str_returns env st sge ipq w1 w2 H1 H2) in H.
  rewrite (cmd_str_returns env st2 sge ipq w1' w2' H1' H2') in H.
  cbn [fst] in H. fold c c2 in H.
  assert (E : String.concat "" (cmd_parts c sge ipq) =
              String.concat "" (cmd_parts c2 sge ipq)) by congruence.
  clear H. rename E into H.
  rewrite !cmd_parts_head, !append_assoc in H.
  apply append_inv_head in H.
  apply word_split in H as [Er H]; [| assumption ..].
  apply (append_inv_head "--bas_fofn=") in H.
  apply word_split in H as [Eb H]; [| assumption ..].
  apply (append_inv_head "--fasta_fofn=") in H.
  apply word_split in H as [Ef H]; [| assumption ..].
  cbn [append] in H.
  rewrite <- (append_assoc (opt_flag "--report=" (report_fn c))),
          <- (append_assoc (opt_flag "--report=" (report_fn c2))) in H.
  apply append_inv_tail in H.
  apply opt_flags_inj in H as [Erep Esum]; [| assumption ..].
  repeat split; assumption.
Qed.

(** X6.  Nothing is quoted: a blank in a path makes the command line
    ambiguous.  An object with report path [r] and an object without
    report path whose [fasta_fofn] ends in [" --report=r"] get the same
    outcome from [cmd_str]. *)
Theorem cmd_str_does_not_quote
    (root bas fasta r : string) (sge : SgeOpts) (ipq : IpqOpts)
    (summary name : option string) (w : W) (t : list event) :
  fst (cmd_str env
         (mkState (__init__ root bas fasta sge ipq (Some r) summary name)
                  w t)) =
  fst (cmd_str env
         (mkState (__init__ root bas (fasta ++ " --report=" ++ r) sge ipq
                            None summary name)
                  w t)).
Proof.
  rewrite !cmd_str_unfold. cbv zeta. cbn [self world sge_opts ipq_opts __init__].
  destruct (SgeOpts_cmd_str env sge true true w) as [[e|s1] w1];
    [reflexivity |].
  destruct (IpqOpts_cmd_str env ipq w1) as [[e|s2] w2]; [reflexivity |].
  cbn [fst]. f_equal. rewrite !cmd_parts_head. unfold __init__.
  cbn [opt_flag root_dir bas_fofn fasta_fofn report_fn summary_fn].
  unfold flag. rewrite !append_assoc. reflexivity.
Qed.

End CmdStrMore.

(** ** Argument registration *)

Section RegistrationProperties.

Context {exn W Parser : Type}.

Variable helpers : Helpers exn W Parser.

Let reg_state := reg_state exn W Parser.

Lemma add_ice_quiver_all_arguments_unfold (p0 : Parser) (st : reg_state) :
  add_ice_quiver_all_arguments helpers p0 st =
  match add_cluster_root_dir_as_positional_argument helpers p0
          (reg_world st) with
  | (inl e, w1) =>
      (inl e, mkRegState w1 (reg_trace st ++ [Reg_root_dir p0 (inl e)]))
  | (inr p1, w1) =>
      match add_fofn_arguments helpers p1 true true w1 with
      | (inl e, w2) =>
          (inl e,
           mkRegState w2
             (reg_trace st ++
              [Reg_root_dir p0 (inr p1); Reg_fofn p1 true true (inl e)]))
      | (inr p2, w2) =>
          match add_cluster_summary_report_arguments helpers p2 w2 with
          | (inl e, w3) =>
              (inl e,
               mkRegState w3
                 (reg_trace st ++
                  [Reg_root_dir p0 (inr p1); Reg_fofn p1 true true (inr p2);
                   Reg_summary_report p2 (inl e)]))
          | (inr p3, w3) =>
              match add_ice_post_quiver_hq_lq_arguments helpers p3 w3 with
              | (inl e, w4) =>
                  (inl e,
                   mkRegState w4
                     (reg_trace st ++
                      [Reg_root_dir p0 (inr p1);
                       Reg_fofn p1 true true (inr p2);
                       Reg_summary_report p2 (inr p3);
                       Reg_hq_lq p3 (inl e)]))
              | (inr p4, w4) =>
                  let (r, w5) := add_sge_arguments helpers p4 true true w4 in
                  (r,
                   mkRegState w5
                     (reg_trace st ++
                      [Reg_root_dir p0 (inr p1);
                       Reg_fofn p1 true true (inr p2);
                       Reg_summary_report p2 (inr p3);
                       Reg_hq_lq p3 (inr p4);
                       Reg_sge p4 true true r]))
              end
          end
      end
  end%list.
Proof.
  unfold add_ice_quiver_all_arguments, reg_bind, reg_call, reg_ret.
  destruct (add_cluster_root_dir_as_positional_argument helpers p0 _)
    as [[e|p1] w1]; [reflexivity |].
  cbn [reg_world reg_trace].
  destruct (add_fofn_arguments helpers p1 true true w1) as [[e|p2] w2];
    rewrite <- ?app_assoc; [reflexivity |].
  cbn [reg_world reg_trace].
  destruct (add_cluster_summary_report_arguments helpers p2 w2)
    as [[e|p3] w3]; rewrite <- ?app_assoc; [reflexivity |].
  cbn [reg_world reg_trace].
  destruct (add_ice_post_quiver_hq_lq_arguments helpers p3 w3)
    as [[e|p4] w4]; rewrite <- ?app_assoc; [reflexivity |].
  cbn [reg_world reg_trace].
  destruct (add_sge_arguments helpers p4 true true w4) as [[e|p5] w5];
    rewrite <- ?app_assoc; reflexivity.
Qed.

End RegistrationProperties.

(** The outcomes of the registration, one goal per outcome. *)
Ltac reg_outcomes helpers st H :=
  rewrite add_ice_quiver_all_arguments_unfold in H;
  destruct (add_cluster_root_dir_as_positional_argument helpers _ _)
    as [[?e|?p] ?w];
  [| destruct (add_fofn_arguments helpers _ true true _) as [[?e|?p] ?w];
     [| destruct (add_cluster_summary_report_arguments helpers _ _)
          as [[?e|?p] ?w];
        [| destruct (add_ice_post_quiver_hq_lq_arguments helpers _ _)
             as [[?e|?p] ?w];
           [| destruct (add_sge_arguments helpers _ true true _)
                as [[?e|?p] ?w] ]]]];
  inversion H; subst; clear H; cbn [reg_world reg_trace].

Section RegistrationChain.

Context {exn W Parser : Type}.

Variable helpers : Helpers exn W Parser.

Let reg_state := reg_state exn W Parser.

(** X8.  [add_ice_quiver_all_arguments] returns a parser exactly when the
    five helpers were called in this order and all returned: root
    directory, manifests with [bas_fofn=True] and [fasta_fofn=True],
    summary and report, HQ/LQ, SGE with [quiver_nproc=True] and
    [blasr_nproc=True]; each was handed the parser the one before
    returned, and the parser returned is the one the SGE helper
    returned. *)
Theorem add_arguments_returns_iff
    (p0 : Parser) (st st' : reg_state) (r : result exn Parser) :
  add_ice_quiver_all_arguments helpers p0 st = (r, st') ->
  forall p5,
    r = inr p5 <->
    exists p1 p2 p3 p4,
      reg_trace st' =
      (reg_trace st ++
       [Reg_root_dir p0 (inr p1);
        Reg_fofn p1 true true (inr p2);
        Reg_summary_report p2 (inr p3);
        Reg_hq_lq p3 (inr p4);
        Reg_sge p4 true true (inr p5)])%list.
Proof.
  intros H p5. reg_outcomes helpers st H; split;
    try discriminate;
    try (intros (q1 & q2 & q3 & q4 & H); apply app_inv_head in H;
         discriminate H).
  - intros H; injection H as ->. eexists _, _, _, _. reflexivity.
  - intros (q1 & q2 & q3 & q4 & H). apply app_inv_head in H.
    now inversion H.
Qed.

(** X9.  In every outcome the calls form a chain that starts from the
    parser given: each helper is handed what the helper before returned,
    and a helper that raises is the last one called, its exception being
    the outcome. *)
Theorem add_arguments_chain
    (p0 : Parser) (st st' : reg_state) (r : result exn Parser) :
  add_ice_quiver_all_arguments helpers p0 st = (r, st') ->
  exists t,
    reg_trace st' = (reg_trace st ++ t)%list /\
    chained p0 t /\
    reg_passes_failures_through r t.
Proof.
  intros H. reg_outcomes helpers st H;
    (eexists; split; [reflexivity |]); (split; [cbn; tauto |]); split;
    first
      [ intros i ev x H Hr; at_index H i; cbn in Hr; try discriminate Hr;
        inversion Hr; subst; split; reflexivity
      | intros x Hx; try discriminate Hx; inversion Hx; subst;
        eexists; split; reflexivity ].
Qed.

(** X10.  If each helper, whenever it returns, returns the parser it was
    given, then so does [add_ice_quiver_all_arguments]. *)
Theorem add_arguments_returns_given_parser
    (p0 : Parser) (st : reg_state) (p : Parser) :
  returns_given (add_cluster_root_dir_as_positional_argument helpers) ->
  returns_given (fun q => add_fofn_arguments helpers q true true) ->
  returns_given (add_cluster_summary_report_arguments helpers) ->
  returns_given (add_ice_post_quiver_hq_lq_arguments helpers) ->
  returns_given (fun q => add_sge_arguments helpers q true true) ->
  fst (add_ice_quiver_all_arguments helpers p0 st) = inr p ->
  p = p0.
Proof.
  intros G1 G2 G3 G4 G5. rewrite add_ice_quiver_all_arguments_unfold.
  destruct (add_cluster_root_dir_as_positional_argument helpers p0 _)
    as [[e|p1] w1] eqn:E1; [discriminate |].
  destruct (add_fofn_arguments helpers p1 true true w1)
    as [[e|p2] w2] eqn:E2; [discriminate |].
  destruct (add_cluster_summary_report_arguments helpers p2 w2)
    as [[e|p3] w3] eqn:E3; [discriminate |].
  destruct (add_ice_post_quiver_hq_lq_arguments helpers p3 w3)
    as [[e|p4] w4] eqn:E4; [discriminate |].
  destruct (add_sge_arguments helpers p4 true true w4)
    as [[e|p5] w5] eqn:E5; [discriminate |].
  cbn [fst]. intros H; injection H as <-.
  rewrite (G5 p4 w4 p5) by now rewrite E5.
  rewrite (G4 p3 w3 p4) by now rewrite E4.
  rewrite (G3 p2 w2 p3) by now rewrite E3.
  rewrite (G2 p1 w1 p2) by now rewrite E2.
  apply (G1 p0 (reg_world st) p1). now rewrite E1.
Qed.

End RegistrationChain.

(** ** More sample runs *)

(** X1 on a run in which every call returns. *)
Lemma run_returns_iff_calm :
  exists st',
    run scripted (start example_cfg (calm "" "")) = (inr tt, st') /\
    exists q use_sge p,
      trace st' =
      ([] ++
       [Ev_IceQuiver_init "/out" "bas.fofn" "fa.fofn" tt (inr q);
        Ev_IceQuiver_validate_inputs q (inr tt);
        Ev_IceQuiver_run q (inr tt);
        Ev_IceQuiverPostprocess_init "/out" use_sge false tt (inr p);
        Ev_IceQuiverPostprocess_run p (inr tt)])%list.
Proof.
  eexists. split; [reflexivity |].
  pose proof (run_returns_iff scripted (start example_cfg (calm "" ""))
                _ _ eq_refl) as H.
  cbv zeta in H. apply H. reflexivity.
Defined.

(** X3: with or without output paths, the same run. *)
Lemma run_ignores_output_paths_full :
  fst (run scripted (start full_cfg (calm "" ""))) =
  fst (run scripted (start example_cfg (calm "" ""))) /\
  world (snd (run scripted (start full_cfg (calm "" "")))) =
  world (snd (run scripted (start example_cfg (calm "" "")))) /\
  trace (snd (run scripted (start full_cfg (calm "" "")))) =
  trace (snd (run scripted (start example_cfg (calm "" "")))).
Proof.
  apply (run_ignores_output_paths scripted
           (start full_cfg (calm "" "")) (start example_cfg (calm "" ""))).
  - repeat split.
  - reflexivity.
  - reflexivity.
Defined.

(** X7: the command line first, then the run. *)
Lemma cmd_str_then_run_full :
  exists asked made,
    trace (snd (cmd_str scripted
                  (start full_cfg (calm sample_sge sample_ipq)))) =
    ([] ++ asked)%list /\
    trace (snd (run scripted (start full_cfg (calm sample_sge sample_ipq))))
    = ([] ++ made)%list /\
    trace (snd (run scripted
                  (snd (cmd_str scripted
                          (start full_cfg (calm sample_sge sample_ipq)))))) =
    ([] ++ asked ++ made)%list /\
    fst (run scripted
           (snd (cmd_str scripted
                   (start full_cfg (calm sample_sge sample_ipq))))) =
    fst (run scripted (start full_cfg (calm sample_sge sample_ipq))) /\
    world (snd (run scripted
                  (snd (cmd_str scripted
                          (start full_cfg (calm sample_sge sample_ipq)))))) =
    world (snd (run scripted
                  (start full_cfg (calm sample_sge sample_ipq)))).
Proof.
  apply (cmd_str_then_run scripted
           (start full_cfg (calm sample_sge sample_ipq))); reflexivity.
Defined.

(** X5: the same object in two worlds. *)
Lemma cmd_str_tells_paths_full :
  root_dir full_cfg = "/out" /\
  bas_fofn full_cfg = "bas.fofn" /\
  fasta_fofn full_cfg = "fa.fofn" /\
  report_fn full_cfg = report_fn full_cfg /\
  summary_fn full_cfg = summary_fn full_cfg.
Proof.
  apply (cmd_str_tells_paths scripted
           (start full_cfg (calm sample_sge sample_ipq))
           (start full_cfg (note "earlier" (calm sample_sge sample_ipq)))
           sample_sge sample_ipq
           (calm sample_sge sample_ipq) (calm sample_sge sample_ipq)
           (note "earlier" (calm sample_sge sample_ipq))
           (note "earlier" (calm sample_sge sample_ipq))
           eq_refl eq_refl eq_refl eq_refl).
  - repeat split.
  - repeat split.
  - reflexivity.
Defined.

Lemma registering_returns_given (options : list string) :
  returns_given (registering options).
Proof.
  intros p w p'. unfold registering.
  destruct (existsb _ options); cbn [fst]; [discriminate |].
  intros H; now injection H as <-.
Qed.

(** X8 on a fresh parser. *)
Lemma add_arguments_returns_iff_fresh :
  exists p1 p2 p3 p4,
    reg_trace (snd (add_ice_quiver_all_arguments argparse_helpers 1
                      fresh_parser)) =
    ([] ++
     [Reg_root_dir 1 (inr p1);
      Reg_fofn p1 true true (inr p2);
      Reg_summary_report p2 (inr p3);
      Reg_hq_lq p3 (inr p4);
      Reg_sge p4 true true (inr 1)])%list.
Proof.
  apply (add_arguments_returns_iff argparse_helpers 1 fresh_parser
           (snd (add_ice_quiver_all_arguments argparse_helpers 1
                   fresh_parser))
           (inr 1) eq_refl 1).
  reflexivity.
Defined.

(** X9 on a parser on which [--report] is taken: the third helper
    raises. *)
Lemma add_arguments_chain_conflict :
  exists t,
    reg_trace (snd (add_ice_quiver_all_arguments argparse_helpers 1
                      report_taken)) = ([] ++ t)%list /\
    chained 1 t /\
    reg_passes_failures_through (inl "conflicting option string") t.
Proof.
  apply (add_arguments_chain argparse_helpers 1 report_taken
           (snd (add_ice_quiver_all_arguments argparse_helpers 1
                   report_taken))
           (inl "conflicting option string")).
  reflexivity.
Defined.

(** X10 on a fresh parser. *)
Lemma add_arguments_returns_given_parser_fresh :
  exists p,
    fst (add_ice_quiver_all_arguments argparse_helpers 1 fresh_parser) =
    inr p /\ p = 1.
Proof.
  exists 1. split; [reflexivity |].
  apply (add_arguments_returns_given_parser argparse_helpers 1 fresh_parser 1).
  - apply registering_returns_given.
  - intros p w p'. apply registering_returns_given.
  - apply registering_returns_given.
  - apply registering_returns_given.
  - intros p w p'. apply registering_returns_given.
  - reflexivity.
Defined.
